(** * The Redux core of the todo demo (src/app/index.jsx)

    A shallow embedding of the two slices ([ui], [todos]), of the store
    that combines them, and of the event handlers of the components that
    dispatch to it, followed by the properties of the state-management
    core.

    Conventions.
    - A JavaScript string is the list of its UTF-16 code units.
    - A reducer written against an Immer draft becomes a function from
      the old slice state to the new one.
    - [nanoid()] and [Date.now()] belong to the environment: the result
      of their k-th call is [nanoid k], resp. [Date_now k], and the
      number of calls made so far is part of the state of the world. *)

From Stdlib Require Import String Ascii.
From stdpp Require Import base decidable option numbers list.

Local Open Scope N_scope.

(** ** JavaScript strings *)

Abbreviation jsstring := (list N).

(** The code units of a literal made of Latin-1 characters. *)
Definition js (s : string) : jsstring :=
  N_of_ascii <$> list_ascii_of_string s.

(** WhiteSpace and LineTerminator of ECMAScript, the code units that
    [String.prototype.trim] strips. *)
Definition isWhiteSpace (c : N) : bool :=
  (9 <=? c) && (c <=? 13)
  || (c =? 32) || (c =? 160) || (c =? 5760)
  || (8192 <=? c) && (c <=? 8202)
  || (c =? 8232) || (c =? 8233) || (c =? 8239) || (c =? 8287)
  || (c =? 12288) || (c =? 65279).

Fixpoint trimStart (s : jsstring) : jsstring :=
  match s with
  | [] => []
  | c :: r => if isWhiteSpace c then trimStart r else s
  end.

Definition trimEnd (s : jsstring) : jsstring :=
  reverse (trimStart (reverse s)).

Definition trim (s : jsstring) : jsstring := trimEnd (trimStart s).

(** [!s] on a string: the empty string is the only falsy one. *)
Definition not_str (s : jsstring) : bool :=
  match s with [] => true | _ :: _ => false end.

Local Close Scope N_scope.

(** ** The [ui] slice *)

Record UiState := mkUi {
  darkMode : bool;
  showBanner : bool;
  doneNotificationVisible : bool
}.

Module uiSlice.

Definition initialState : UiState :=
  {| darkMode := false; showBanner := true;
     doneNotificationVisible := false |}.

Definition toggleDarkMode (state : UiState) : UiState :=
  {| darkMode := negb (darkMode state);
     showBanner := showBanner state;
     doneNotificationVisible := doneNotificationVisible state |}.

Definition dismissBanner (state : UiState) : UiState :=
  {| darkMode := darkMode state;
     showBanner := false;
     doneNotificationVisible := doneNotificationVisible state |}.

Definition showDoneNotification (state : UiState) : UiState :=
  {| darkMode := darkMode state;
     showBanner := showBanner state;
     doneNotificationVisible := true |}.

Definition dismissDoneNotification (state : UiState) : UiState :=
  {| darkMode := darkMode state;
     showBanner := showBanner state;
     doneNotificationVisible := false |}.

End uiSlice.

(** ** The [todos] slice *)

Record Task := mkTask {
  id : jsstring;
  title : jsstring;
  done : bool;
  createdAt : Z
}.

Global Instance Task_eq_dec : EqDecision Task.
Proof. solve_decision. Defined.

Record TodosState := mkTodos { items : list Task }.

(** [t.done = v] on the draft of a task. *)
Definition set_done (t : Task) (v : bool) : Task :=
  {| id := id t; title := title t; done := v; createdAt := createdAt t |}.

Module todosSlice.

Definition initialState : TodosState := {| items := [] |}.

(** [addTodo.reducer]: [state.items.unshift(action.payload)]. *)
Definition addTodo (state : TodosState) (payload : Task) : TodosState :=
  {| items := payload :: items state |}.

(** [find] yields the first task with the id, with its index; the
    assignment to its [done] goes to that position of the draft. *)
Definition toggleTodo (state : TodosState) (payload : jsstring)
  : TodosState :=
  match list_find (λ x, id x = payload) (items state) with
  | Some (i, t) => {| items := <[i := set_done t (negb (done t))]> (items state) |}
  | None => state
  end.

Definition removeTodo (state : TodosState) (payload : jsstring)
  : TodosState :=
  {| items := filter (λ x, id x ≠ payload) (items state) |}.

Definition clearTodos (state : TodosState) : TodosState :=
  {| items := filter (λ item, negb (done item)) (items state) |}.

End todosSlice.

(** ** The store *)

(** The actions the eight action creators build, one per action type
    ("ui/toggleDarkMode", ..., "todos/clearTodos"). *)
Inductive Action :=
| ui_toggleDarkMode
| ui_dismissBanner
| ui_showDoneNotification
| ui_dismissDoneNotification
| todos_addTodo (payload : Task)
| todos_toggleTodo (payload : jsstring)
| todos_removeTodo (payload : jsstring)
| todos_clearTodos.

(** A slice reducer answers the actions of its own slice and returns its
    state as it is on any other. *)
Definition ui_reducer (state : UiState) (action : Action) : UiState :=
  match action with
  | ui_toggleDarkMode => uiSlice.toggleDarkMode state
  | ui_dismissBanner => uiSlice.dismissBanner state
  | ui_showDoneNotification => uiSlice.showDoneNotification state
  | ui_dismissDoneNotification => uiSlice.dismissDoneNotification state
  | _ => state
  end.

Definition todos_reducer (state : TodosState) (action : Action)
  : TodosState :=
  match action with
  | todos_addTodo payload => todosSlice.addTodo state payload
  | todos_toggleTodo payload => todosSlice.toggleTodo state payload
  | todos_removeTodo payload => todosSlice.removeTodo state payload
  | todos_clearTodos => todosSlice.clearTodos state
  | _ => state
  end.

Record RootState := mkRoot { ui : UiState; todos : TodosState }.

(** [configureStore({ reducer: { ui, todos } })]. *)
Definition rootReducer (state : RootState) (action : Action) : RootState :=
  {| ui := ui_reducer (ui state) action;
     todos := todos_reducer (todos state) action |}.

Definition initialRoot : RootState :=
  {| ui := uiSlice.initialState; todos := todosSlice.initialState |}.

(** ** The world around the store *)

(** How often the two environment functions have been called. *)
Record Env := mkEnv { nanoidCalls : nat; nowCalls : nat }.

Inductive ImpactFeedbackStyle := Light | Medium | Heavy.

Record World := mkWorld {
  store : RootState;
  env : Env;
  (** [const [title, setTitle] = useState("")] of TodosCard *)
  titleText : jsstring;
  (** the calls of [Haptics.impactAsync], latest first *)
  haptics : list ImpactFeedbackStyle
}.

Definition initialWorld : World :=
  {| store := initialRoot;
     env := {| nanoidCalls := 0; nowCalls := 0 |};
     titleText := [];
     haptics := [] |}.

Definition set_store (w : World) (s : RootState) : World :=
  {| store := s; env := env w; titleText := titleText w;
     haptics := haptics w |}.

Definition set_env (w : World) (e : Env) : World :=
  {| store := store w; env := e; titleText := titleText w;
     haptics := haptics w |}.

Definition setTitle (s : jsstring) (w : World) : World :=
  {| store := store w; env := env w; titleText := s;
     haptics := haptics w |}.

Definition impactAsync (style : ImpactFeedbackStyle) (w : World) : World :=
  {| store := store w; env := env w; titleText := titleText w;
     haptics := style :: haptics w |}.

(** [store.dispatch(action)]. *)
Definition dispatch (action : Action) (w : World) : World :=
  set_store w (rootReducer (store w) action).

(** The calls of the eight action creators. *)
Inductive Call :=
| toggleDarkMode
| dismissBanner
| showDoneNotification
| dismissDoneNotification
| addTodo (title : jsstring)
| toggleTodo (id : jsstring)
| removeTodo (id : jsstring)
| clearTodos.

(** The events of the interface, each with the handler the component
    tree binds to it. *)
Inductive UIEvent :=
| GotItBanner
| GotItDoneNotification
| SwitchDarkMode
| ChangeText (text : jsstring)
| SubmitEditing
| PressAdd
| PressDone (item : Task)
| PressRemove (item : Task)
| PressClearCompleted
| PressUndo (item : Task).

Inductive Step :=
| Dispatch (c : Call)
| UI (e : UIEvent).

(** What the components read from the store. *)
Definition tasks (w : World) : list Task := items (todos (store w)).
Definition flags (w : World) : UiState := ui (store w).

(** The selector of Donecard. *)
Definition completedTasks (w : World) : list Task :=
  filter (λ item, done item) (tasks w).

(** [doneExists] of TodosCard. *)
Definition doneExists (w : World) : bool :=
  bool_decide (Exists (λ item, done item) (tasks w)).

(** The slice whose reducer answers the action of a call. *)
Inductive Slice := UiSlice | TodosSlice.

Definition slice_of (c : Call) : Slice :=
  match c with
  | toggleDarkMode | dismissBanner
  | showDoneNotification | dismissDoneNotification => UiSlice
  | addTodo _ | toggleTodo _ | removeTodo _ | clearTodos => TodosSlice
  end.

(** The ids of the collection, in its order. *)
Definition ids (w : World) : list jsstring := id <$> tasks w.

(** How many ids have been drawn from [nanoid]. *)
Definition drawn (w : World) : nat := nanoidCalls (env w).

(** Sample answers of the environment, for the instances below: the k-th
    id is the one code unit k, and the clock stands still. *)
Definition sample_nanoid (k : nat) : jsstring := [N.of_nat k].
Definition sample_now (k : nat) : Z := 1700000000000%Z.

Definition sample_task (i : nat) (d : bool) : Task :=
  {| id := sample_nanoid i; title := js "Buy milk"; done := d;
     createdAt := sample_now i |}.

(** A world with the given tasks and text in the input. *)
Definition sample_world (its : list Task) (text : jsstring) : World :=
  {| store := {| ui := uiSlice.initialState; todos := {| items := its |} |};
     env := {| nanoidCalls := length its; nowCalls := length its |};
     titleText := text;
     haptics := [] |}.

(** Settles a closed decidable proposition by evaluation. *)
Ltac decide_by_compute :=
  refine (bool_decide_unpack _ _); vm_compute; exact I.

Section Environment.

Variable nanoid : nat → jsstring.
Variable Date_now : nat → Z.

(** [addTodo.prepare]: the id is drawn first, the clock is read after
    it. *)
Definition prepare (title : jsstring) (e : Env) : Task * Env :=
  ({| id := nanoid (nanoidCalls e);
      title := title;
      done := false;
      createdAt := Date_now (nowCalls e) |},
   {| nanoidCalls := S (nanoidCalls e); nowCalls := S (nowCalls e) |}).

(** [dispatch(creator(args))]: build the action, then dispatch it. *)
Definition call (c : Call) (w : World) : World :=
  match c with
  | toggleDarkMode => dispatch ui_toggleDarkMode w
  | dismissBanner => dispatch ui_dismissBanner w
  | showDoneNotification => dispatch ui_showDoneNotification w
  | dismissDoneNotification => dispatch ui_dismissDoneNotification w
  | addTodo title =>
      let (payload, e) := prepare title (env w) in
      dispatch (todos_addTodo payload) (set_env w e)
  | toggleTodo id => dispatch (todos_toggleTodo id) w
  | removeTodo id => dispatch (todos_removeTodo id) w
  | clearTodos => dispatch todos_clearTodos w
  end.

(** [addTask] of TodosCard; [title] is the state of the text input. *)
Definition addTask (w : World) : World :=
  let title := titleText w in
  if not_str (trim title) then w
  else impactAsync Light (setTitle [] (call (addTodo (trim title)) w)).

(** The [onSubmitEditing] handler of the text input repeats the body
    of [addTask]. *)
Definition onSubmitEditing (w : World) : World :=
  let title := titleText w in
  if not_str (trim title) then w
  else impactAsync Light (setTitle [] (call (addTodo (trim title)) w)).

Definition handleToggleDone (id : jsstring) (currentDone : bool)
    (w : World) : World :=
  let w1 := call (toggleTodo id) w in
  if negb currentDone then call showDoneNotification w1 else w1.

Definition handle (e : UIEvent) (w : World) : World :=
  match e with
  | GotItBanner => call dismissBanner w
  | GotItDoneNotification => call dismissDoneNotification w
  | SwitchDarkMode => call toggleDarkMode w
  | ChangeText text => setTitle text w
  | SubmitEditing => onSubmitEditing w
  | PressAdd => addTask w
  | PressDone item => handleToggleDone (id item) (done item) w
  | PressRemove item => call (removeTodo (id item)) w
  | PressClearCompleted => call clearTodos w
  | PressUndo item => call (toggleTodo (id item)) w
  end.

Definition step (s : Step) (w : World) : World :=
  match s with
  | Dispatch c => call c w
  | UI e => handle e w
  end.

(** The world after a sequence of steps, the first of the list first. *)
Definition run (l : list Step) (w : World) : World :=
  foldl (λ w s, step s w) w l.

(** The first [n] ids [nanoid] returns are pairwise different. *)
Definition fresh_upto (n : nat) : Prop :=
  ∀ j k, j < n → k < n → nanoid j = nanoid k → j = k.

(** No id twice, and every id is one that has been drawn. *)
Definition ids_ok (w : World) : Prop :=
  NoDup (ids w) ∧ ∀ x, x ∈ ids w → ∃ k, k < drawn w ∧ x = nanoid k.

(** Every code unit of the string is white space. *)
Definition blank (s : jsstring) : Prop :=
  Forall (λ c, isWhiteSpace c = true) s.

(** Not empty, and no white space at either end. *)
Definition trimmed (s : jsstring) : Prop :=
  s ≠ [] ∧
  (∀ c, head s = Some c → isWhiteSpace c = false) ∧
  (∀ c, last s = Some c → isWhiteSpace c = false).

(** The events the rendered tree offers in a world: the two banners are
    rendered while their flags are set, TodosCard renders a DONE and a
    Remove button per task of the collection and the Clear Completed
    button while [doneExists], Donecard renders an Undo and a Remove
    button per task of its list. *)
Definition offered (w : World) (e : UIEvent) : Prop :=
  match e with
  | GotItBanner => showBanner (flags w) = true
  | GotItDoneNotification => doneNotificationVisible (flags w) = true
  | SwitchDarkMode | ChangeText _ | SubmitEditing | PressAdd => True
  | PressDone item | PressRemove item => item ∈ tasks w
  | PressClearCompleted => doneExists w = true
  | PressUndo item => item ∈ completedTasks w
  end.

Global Instance offered_dec (w : World) (e : UIEvent) : Decision (offered w e).
Proof. destruct e; simpl; apply _. Defined.

(** The steps that flip the theme. *)
Definition flips_theme (s : Step) : bool :=
  match s with
  | Dispatch toggleDarkMode | UI SwitchDarkMode => true
  | _ => false
  end.

(** What [prepare] stamps on a task and nothing changes afterwards. *)
Definition stamp (t : Task) : jsstring * Z := (id t, createdAt t).

Definition stamps (w : World) : list (jsstring * Z) := stamp <$> tasks w.

(** The counters after one more call of [prepare]. *)
Definition next_env (e : Env) : Env :=
  {| nanoidCalls := S (nanoidCalls e); nowCalls := S (nowCalls e) |}.

(** The stamps are those of calls of [prepare] before the n-th, later
    calls first. *)
Fixpoint newest_first (n : nat) (l : list (jsstring * Z)) : Prop :=
  match l with
  | [] => True
  | p :: r => ∃ k, k < n ∧ p = (nanoid k, Date_now k) ∧ newest_first k r
  end.

(** The counters agree and the collection is in the order of creation. *)
Definition history_ok (w : World) : Prop :=
  nowCalls (env w) = nanoidCalls (env w) ∧
  newest_first (nanoidCalls (env w)) (stamps w).

(** [toggleTodo] on the list of tasks, by recursion on the list. *)
Fixpoint flip_first (i : jsstring) (l : list Task) : list Task :=
  match l with
  | [] => []
  | x :: r =>
      if decide (id x = i) then set_done x (negb (done x)) :: r
      else x :: flip_first i r
  end.

(** A clock for the instances that advances with every reading. *)
Definition sample_clock (k : nat) : Z := (1700000000000 + Z.of_nat k)%Z.


(** An id generator that returns one id again and again. *)
Definition repeating_nanoid (k : nat) : jsstring := js "V1StGXR8_Z5jdHi6B-myT".

(** * Properties *)

(** ** Lists *)

Section list_facts.
Context {A : Type}.
Implicit Types l k : list A.

Lemma filter_all (P : A → Prop) `{!∀ x, Decision (P x)} l :
  Forall P l → filter P l = l.
Proof.
  induction 1 as [|x l Hx _ IH]; [done|].
  by rewrite filter_cons_True, IH.
Qed.

Lemma filter_twice (P : A → Prop) `{!∀ x, Decision (P x)} l :
  filter P (filter P l) = filter P l.
Proof.
  apply filter_all, Forall_forall.
  by intros x [? _]%list_elem_of_filter.
Qed.

Lemma filter_mono_sublist (P : A → Prop) `{!∀ x, Decision (P x)} l k :
  l `sublist_of` k → filter P l `sublist_of` filter P k.
Proof.
  induction 1 as [|x l k _ IH|x l k _ IH]; [done| |].
  - rewrite !filter_cons. case_decide; [by constructor|done].
  - rewrite filter_cons. case_decide; [by constructor|done].
Qed.

End list_facts.

(** ** Strings *)

Lemma not_str_true (s : jsstring) : not_str s = true ↔ s = [].
Proof. by destruct s. Qed.

Lemma not_str_false (s : jsstring) : not_str s = false ↔ s ≠ [].
Proof. by destruct s. Qed.

(** ** Tasks and the two slices *)

Lemma set_done_same (t : Task) : set_done t (done t) = t.
Proof. by destruct t. Qed.

Lemma set_done_twice (t : Task) (a b : bool) :
  set_done (set_done t a) b = set_done t b.
Proof. done. Qed.

Lemma find_absent (its : list Task) (i : jsstring) :
  i ∉ id <$> its → list_find (λ x, id x = i) its = None.
Proof.
  intros Hi. apply list_find_None, Forall_forall.
  intros x Hx Heq. apply Hi, list_elem_of_fmap. by exists x.
Qed.

Lemma toggleTodo_absent (state : TodosState) (i : jsstring) :
  i ∉ id <$> items state → todosSlice.toggleTodo state i = state.
Proof.
  intros Hi. unfold todosSlice.toggleTodo. by rewrite find_absent.
Qed.

Lemma removeTodo_absent (state : TodosState) (i : jsstring) :
  i ∉ id <$> items state → todosSlice.removeTodo state i = state.
Proof.
  intros Hi. destruct state as [its]. unfold todosSlice.removeTodo. simpl in *.
  f_equal. apply filter_all, Forall_forall.
  intros x Hx Heq. apply Hi, list_elem_of_fmap. by exists x.
Qed.

Lemma set_store_same (w : World) : set_store w (store w) = w.
Proof. by destruct w. Qed.

Lemma root_eta (s : RootState) : {| ui := ui s; todos := todos s |} = s.
Proof. by destruct s. Qed.

(** C1. When the text of the input trims to the empty string, [addTask]
    (and the [onSubmitEditing] handler, which has the same body) returns
    the world as it found it: the same tasks, no call of [nanoid] or of
    [Date.now], the input not reset, no haptic impact. *)
Theorem addTask_blank_noop (w : World) :
  trim (titleText w) = [] →
  addTask w = w ∧ onSubmitEditing w = w ∧
  tasks (addTask w) = tasks w ∧
  length (tasks (addTask w)) = length (tasks w) ∧
  nanoidCalls (env (addTask w)) = nanoidCalls (env w) ∧
  haptics (addTask w) = haptics w.
Proof.
  intros Hblank.
  assert (addTask w = w) as Hsame.
  { unfold addTask. by rewrite Hblank. }
  assert (onSubmitEditing w = w) as Hsubmit.
  { unfold onSubmitEditing. by rewrite Hblank. }
  by rewrite !Hsame.
Qed.

(** C4. When the text of the input does not trim to the empty string,
    [addTask] makes the collection one longer; the new task is at index
    0, carries the trimmed text, [done = false] and the reading of the
    clock; every task that was at index i is now, unchanged, at index
    i + 1. *)
Theorem addTask_prepends (w : World) :
  trim (titleText w) ≠ [] →
  let t := {| id := nanoid (nanoidCalls (env w));
              title := trim (titleText w);
              done := false;
              createdAt := Date_now (nowCalls (env w)) |} in
  length (tasks (addTask w)) = S (length (tasks w)) ∧
  tasks (addTask w) !! 0 = Some t ∧
  (∀ i, tasks (addTask w) !! S i = tasks w !! i) ∧
  tasks (addTask w) = t :: tasks w.
Proof.
  intros Hne%not_str_false t.
  assert (tasks (addTask w) = t :: tasks w) as ->; [|done].
  unfold addTask. by rewrite Hne.
Qed.

(** C7. For an id that no task of the collection has, dispatching
    [toggleTodo(id)] or [removeTodo(id)] returns the world as it was;
    both are total functions, there is no error result. *)
Theorem unknown_id_noop (w : World) (i : jsstring) :
  i ∉ id <$> tasks w →
  call (toggleTodo i) w = w ∧ call (removeTodo i) w = w.
Proof.
  intros Hi. unfold tasks in Hi.
  unfold call, dispatch, rootReducer. simpl.
  rewrite toggleTodo_absent, removeTodo_absent by done.
  by rewrite root_eta, set_store_same.
Qed.

(** ** Slices *)

Lemma ui_call_todos (c : Call) (w : World) :
  slice_of c = UiSlice → todos (store (call c w)) = todos (store w).
Proof. by destruct c. Qed.

Lemma todos_call_ui (c : Call) (w : World) :
  slice_of c = TodosSlice → ui (store (call c w)) = ui (store w).
Proof. by destruct c. Qed.

(** C10. A call of one of the four action creators of the [ui] slice
    leaves the task collection as it is, a call of one of the four of
    the [todos] slice leaves the three flags as they are, so
    [toggleTodo] does not touch [doneNotificationVisible]; of the eight
    calls only [showDoneNotification] takes that flag from false to
    true, and that is the call [handleToggleDone] adds after
    [toggleTodo] when the task was not done. *)
Theorem slices_separate (w : World) :
  (∀ c, slice_of c = UiSlice → tasks (call c w) = tasks w) ∧
  (∀ c, slice_of c = TodosSlice → flags (call c w) = flags w) ∧
  (∀ i, doneNotificationVisible (flags (call (toggleTodo i) w))
        = doneNotificationVisible (flags w)) ∧
  (∀ c, doneNotificationVisible (flags w) = false →
        doneNotificationVisible (flags (call c w)) = true →
        c = showDoneNotification) ∧
  (∀ i, handleToggleDone i false w
        = call showDoneNotification (call (toggleTodo i) w)) ∧
  (∀ i, handleToggleDone i true w = call (toggleTodo i) w).
Proof.
  split_and!.
  - intros c Hc. unfold tasks. by rewrite ui_call_todos.
  - intros c Hc. unfold flags. by rewrite todos_call_ui.
  - intros i. unfold flags. by rewrite todos_call_ui.
  - intros c Hoff Hon. unfold flags in *.
    destruct c; try done; simpl in Hon; congruence.
  - done.
  - done.
Qed.

(** ** The info banner *)

Lemma call_showBanner (c : Call) (w : World) :
  showBanner (flags w) = false → showBanner (flags (call c w)) = false.
Proof. by destruct c. Qed.

Lemma handle_showBanner (e : UIEvent) (w : World) :
  showBanner (flags w) = false → showBanner (flags (handle e w)) = false.
Proof.
  intros Hw. destruct e; unfold handle; try by apply call_showBanner.
  - done.
  - unfold onSubmitEditing. by destruct (not_str _).
  - unfold addTask. by destruct (not_str _).
  - unfold handleToggleDone. by destruct (negb _).
Qed.

Lemma step_showBanner (s : Step) (w : World) :
  showBanner (flags w) = false → showBanner (flags (step s w)) = false.
Proof. destruct s; [apply call_showBanner | apply handle_showBanner]. Qed.

(** C8. [dismissBanner] sets [showBanner] to false, and from a world in
    which it is false no sequence of dispatched calls and interface
    events makes it true. *)
Theorem banner_stays_dismissed (w : World) (l : list Step) :
  showBanner (flags w) = false →
  showBanner (flags (run l w)) = false ∧
  ∀ w0, showBanner (flags (call dismissBanner w0)) = false.
Proof.
  intros Hw. split; [|done].
  revert w Hw. induction l as [|s l IH]; intros w Hw; [done|].
  apply IH. by apply step_showBanner.
Qed.

(** ** Clearing the completed tasks *)

Lemma not_done_false (t : Task) : negb (done t) ↔ done t = false.
Proof. by destruct (done t). Qed.

Lemma clearTodos_twice (state : TodosState) :
  todosSlice.clearTodos (todosSlice.clearTodos state)
  = todosSlice.clearTodos state.
Proof. unfold todosSlice.clearTodos. simpl. by rewrite filter_twice. Qed.

Lemma clearTodos_none_done (state : TodosState) :
  Forall (λ t, done t = false) (items state) →
  todosSlice.clearTodos state = state.
Proof.
  intros Hall. destruct state as [its]. unfold todosSlice.clearTodos.
  simpl in *. f_equal. apply filter_all.
  eapply Forall_impl; [exact Hall|]. intros t. apply not_done_false.
Qed.

(** C5. Dispatching [clearTodos] keeps a subsequence of the collection
    (so the order of what stays is the old one); a task is in the result
    exactly when it was in the collection with [done = false]; every
    subsequence of the collection without a done task is a subsequence of
    the result, so nothing but the done tasks is dropped; a second
    dispatch changes nothing; and when no task is done the world stays as
    it is. *)
Theorem clearTodos_spec (w : World) :
  let w' := call clearTodos w in
  tasks w' `sublist_of` tasks w ∧
  (∀ t, t ∈ tasks w' ↔ t ∈ tasks w ∧ done t = false) ∧
  (∀ l, l `sublist_of` tasks w → Forall (λ t, done t = false) l →
        l `sublist_of` tasks w') ∧
  call clearTodos w' = w' ∧
  (Forall (λ t, done t = false) (tasks w) → w' = w).
Proof.
  simpl. split_and!.
  - apply sublist_filter.
  - intros t. unfold tasks. simpl.
    rewrite list_elem_of_filter, not_done_false. tauto.
  - intros l Hsub Hall. unfold tasks. simpl.
    rewrite <- (filter_all (λ item : Task, negb (done item)) l).
    + by apply filter_mono_sublist.
    + eapply Forall_impl; [exact Hall|]. intros t. apply not_done_false.
  - unfold call, dispatch, rootReducer, set_store. simpl.
    by rewrite clearTodos_twice.
  - intros Hall. unfold call, dispatch, rootReducer. simpl.
    rewrite clearTodos_none_done by done.
    by rewrite root_eta, set_store_same.
Qed.

(** ** Toggling a task *)

Lemma find_present (its : list Task) (i : jsstring) :
  i ∈ id <$> its → ∃ k t, list_find (λ x, id x = i) its = Some (k, t).
Proof.
  intros (x & Hx & Hin)%list_elem_of_fmap.
  destruct (list_find_elem_of (λ x, id x = i) its x) as [[k t] Hf]; eauto.
Qed.

(** Where [find] stops after the task it found has been flipped: at the
    same index. *)
Lemma find_after_flip (its : list Task) (i : jsstring) (k : nat) (t : Task) :
  list_find (λ x, id x = i) its = Some (k, t) →
  list_find (λ x, id x = i) (<[k := set_done t (negb (done t))]> its)
  = Some (k, set_done t (negb (done t))).
Proof.
  intros (Hk & Hid & Hfirst)%list_find_Some. apply list_find_Some.
  split_and!.
  - apply list_lookup_insert_eq. by eapply lookup_lt_Some.
  - done.
  - intros j y Hj Hlt. rewrite list_lookup_insert_ne in Hj by lia. eauto.
Qed.

Lemma toggleTodo_found (state : TodosState) (i : jsstring) (k : nat) (t : Task) :
  list_find (λ x, id x = i) (items state) = Some (k, t) →
  todosSlice.toggleTodo state i
  = {| items := <[k := set_done t (negb (done t))]> (items state) |}.
Proof. intros Hf. unfold todosSlice.toggleTodo. by rewrite Hf. Qed.

Lemma toggleTodo_twice (state : TodosState) (i : jsstring) :
  todosSlice.toggleTodo (todosSlice.toggleTodo state i) i = state.
Proof.
  destruct (list_find (λ x, id x = i) (items state)) as [[k t]|] eqn:Hf.
  - rewrite (toggleTodo_found state i k t Hf).
    rewrite (toggleTodo_found
               {| items := <[k := set_done t (negb (done t))]> (items state) |}
               i k _ (find_after_flip _ _ _ _ Hf)).
    simpl. rewrite negb_involutive, list_insert_insert_eq.
    apply list_find_Some in Hf as (Hk & _ & _).
    rewrite set_done_twice, set_done_same, list_insert_id by done.
    by destruct state.
  - assert (todosSlice.toggleTodo state i = state) as Hsame.
    { unfold todosSlice.toggleTodo. by rewrite Hf. }
    by rewrite !Hsame.
Qed.

(** C6. When some task has the id, two dispatches of [toggleTodo] with
    it in a row give the world back: the first task with the id has its
    [done] negated after the first dispatch and is as before after the
    second. *)
Theorem toggle_twice (w : World) (i : jsstring) :
  i ∈ id <$> tasks w →
  let w1 := call (toggleTodo i) w in
  let w2 := call (toggleTodo i) w1 in
  ∃ k t, tasks w !! k = Some t ∧ id t = i ∧
         tasks w1 !! k = Some (set_done t (negb (done t))) ∧
         tasks w2 !! k = Some t ∧
         w2 = w.
Proof.
  intros (k & t & Hf)%find_present w1 w2. subst w1 w2. exists k, t.
  assert (call (toggleTodo i) (call (toggleTodo i) w) = w) as Hback.
  { unfold call, dispatch, rootReducer, set_store. simpl.
    rewrite toggleTodo_twice. by destruct w as [[] ? ? ?]. }
  rewrite Hback.
  pose proof Hf as (Hk & Hid & _)%list_find_Some.
  split_and!; try done.
  unfold tasks, call, dispatch, rootReducer. simpl.
  rewrite (toggleTodo_found _ i k t Hf). simpl.
  apply list_lookup_insert_eq. by eapply lookup_lt_Some.
Qed.

Lemma insert_same_field {B} (f : Task → B) (its : list Task) (k : nat)
    (t t' : Task) :
  its !! k = Some t → f t' = f t → f <$> <[k := t']> its = f <$> its.
Proof.
  intros Hk Hf. rewrite list_fmap_insert, Hf.
  apply list_insert_id. by rewrite list_lookup_fmap, Hk.
Qed.

(** C9. Dispatching [toggleTodo] keeps the length of the collection and,
    position by position, the [id], [title] and [createdAt] of the tasks;
    the task at a position is afterwards the same task, or it has the id
    of the payload and differs in [done] alone; a task with another id is
    the same. *)
Theorem toggle_frame (w : World) (i : jsstring) :
  let w' := call (toggleTodo i) w in
  length (tasks w') = length (tasks w) ∧
  id <$> tasks w' = id <$> tasks w ∧
  title <$> tasks w' = title <$> tasks w ∧
  createdAt <$> tasks w' = createdAt <$> tasks w ∧
  (∀ k t, tasks w !! k = Some t →
          tasks w' !! k = Some t ∨
          id t = i ∧ tasks w' !! k = Some (set_done t (negb (done t)))) ∧
  (∀ k t, tasks w !! k = Some t → id t ≠ i → tasks w' !! k = Some t).
Proof.
  simpl. unfold tasks, call, dispatch, rootReducer. simpl.
  destruct (list_find (λ x, id x = i) (items (todos (store w))))
    as [[n u]|] eqn:Hf.
  - rewrite (toggleTodo_found _ i n u Hf). simpl.
    apply list_find_Some in Hf as (Hn & Hid & _).
    assert (∀ k t, items (todos (store w)) !! k = Some t →
              <[n := set_done u (negb (done u))]> (items (todos (store w))) !! k
                = Some t ∨
              id t = i ∧
              <[n := set_done u (negb (done u))]> (items (todos (store w))) !! k
                = Some (set_done t (negb (done t)))) as Hpos.
    { intros k t Hk. destruct (decide (n = k)) as [->|Hne].
      - right. rewrite Hn in Hk. injection Hk as ->. split; [done|].
        apply list_lookup_insert_eq. by eapply lookup_lt_Some.
      - left. by rewrite list_lookup_insert_ne. }
    split_and!.
    + apply length_insert.
    + by apply insert_same_field with u.
    + by apply insert_same_field with u.
    + by apply insert_same_field with u.
    + exact Hpos.
    + intros k t Hk Hne. by destruct (Hpos k t Hk) as [?|[? _]].
  - assert (todosSlice.toggleTodo (todos (store w)) i = todos (store w)) as ->.
    { unfold todosSlice.toggleTodo. by rewrite Hf. }
    split_and!; auto.
Qed.

(** ** The completion notification *)



(** ** Ids *)

Lemma NoDup_draws_fresh (n : nat) :
  NoDup (nanoid <$> seq 0 n) → fresh_upto n.
Proof.
  intros Hnd j k Hj Hk Heq.
  apply (NoDup_lookup _ j k (nanoid j) Hnd).
  - by rewrite list_lookup_fmap, lookup_seq_lt.
  - by rewrite list_lookup_fmap, lookup_seq_lt, Heq.
Qed.

Lemma toggleTodo_ids (state : TodosState) (i : jsstring) :
  id <$> items (todosSlice.toggleTodo state i) = id <$> items state.
Proof.
  unfold todosSlice.toggleTodo.
  destruct (list_find _ _) as [[k t]|] eqn:Hf; [|done].
  apply list_find_Some in Hf as (Hk & _ & _). simpl.
  by apply insert_same_field with t.
Qed.

(** A call shortens the list of ids to a subsequence and draws nothing,
    or it puts the id drawn next in front. *)
Lemma call_ids (c : Call) (w : World) :
  ids (call c w) `sublist_of` ids w ∧ drawn (call c w) = drawn w ∨
  ids (call c w) = nanoid (drawn w) :: ids w ∧
  drawn (call c w) = S (drawn w).
Proof.
  destruct c; try (by left); [by right | left .. ]; (split; [|done]);
    unfold ids, tasks; simpl.
  - by rewrite toggleTodo_ids.
  - apply fmap_sublist, sublist_filter.
  - apply fmap_sublist, sublist_filter.
Qed.

Lemma handle_ids (e : UIEvent) (w : World) :
  ids (handle e w) `sublist_of` ids w ∧ drawn (handle e w) = drawn w ∨
  ids (handle e w) = nanoid (drawn w) :: ids w ∧
  drawn (handle e w) = S (drawn w).
Proof.
  destruct e; unfold handle; try apply call_ids.
  - by left.
  - unfold onSubmitEditing. destruct (not_str _); [by left | by right].
  - unfold addTask. destruct (not_str _); [by left | by right].
  - unfold handleToggleDone.
    destruct (negb _); [|apply call_ids].
    destruct (call_ids (toggleTodo (id item)) w) as [H|H]; [left|right];
      exact H.
Qed.

Lemma step_ids (s : Step) (w : World) :
  ids (step s w) `sublist_of` ids w ∧ drawn (step s w) = drawn w ∨
  ids (step s w) = nanoid (drawn w) :: ids w ∧
  drawn (step s w) = S (drawn w).
Proof. destruct s; [apply call_ids | apply handle_ids]. Qed.

Lemma step_drawn_mono (s : Step) (w : World) : drawn w ≤ drawn (step s w).
Proof. destruct (step_ids s w) as [[_ ->]|[_ ->]]; lia. Qed.

Lemma run_drawn_mono (l : list Step) (w : World) : drawn w ≤ drawn (run l w).
Proof.
  revert w. induction l as [|s l IH]; intros w; [done|].
  etrans; [apply (step_drawn_mono s)|apply IH].
Qed.

Lemma fresh_upto_mono (m n : nat) : m ≤ n → fresh_upto n → fresh_upto m.
Proof. intros Hmn Hn j k Hj Hk. apply Hn; lia. Qed.

Lemma step_ids_ok (s : Step) (w : World) :
  fresh_upto (drawn (step s w)) → ids_ok w → ids_ok (step s w).
Proof.
  intros Hfresh [Hnd Hdrawn]. unfold ids_ok.
  destruct (step_ids s w) as [[Hsub Hd]|[Hcons Hd]]; rewrite Hd in *.
  - split.
    + by eapply sublist_NoDup.
    + intros x Hx. apply Hdrawn. by eapply elem_of_sublist.
  - split.
    + rewrite Hcons. apply NoDup_cons. split; [|done].
      intros (k & Hk & Heq)%Hdrawn.
      apply Hfresh in Heq; lia.
    + intros x. rewrite Hcons. intros [->|Hx]%elem_of_cons.
      * exists (drawn w). split; [lia|done].
      * destruct (Hdrawn x Hx) as (k & Hk & ->). exists k. split; [lia|done].
Qed.

Lemma run_ids_ok (l : list Step) (w : World) :
  fresh_upto (drawn (run l w)) → ids_ok w → ids_ok (run l w).
Proof.
  revert w. induction l as [|s l IH]; intros w Hfresh Hw; [done|].
  apply IH; [done|]. apply step_ids_ok; [|done].
  eapply fresh_upto_mono; [|exact Hfresh]. apply (run_drawn_mono l).
Qed.

Lemma initial_ids_ok : ids_ok initialWorld.
Proof. split; [constructor|]. by intros x ?%elem_of_nil. Qed.

(** C3. In the world reached from the initial one by any sequence of
    dispatched calls and interface events, no two tasks share an id,
    provided the ids that [nanoid] returned on the way are pairwise
    different: [prepare] takes the id as [nanoid] gives it and compares
    it with nothing. The readings of the clock play no part, they may
    all be the same. *)
Theorem ids_unique (l : list Step) :
  let w := run l initialWorld in
  NoDup (nanoid <$> seq 0 (nanoidCalls (env w))) →
  NoDup (id <$> tasks w) ∧
  ∀ j k t u, tasks w !! j = Some t → tasks w !! k = Some u →
             j ≠ k → id t ≠ id u.
Proof.
  intros w Hdraws.
  assert (NoDup (id <$> tasks w)) as Hnd.
  { apply (run_ids_ok l initialWorld).
    - by apply NoDup_draws_fresh.
    - apply initial_ids_ok. }
  split; [done|].
  intros j k t u Hj Hk Hne Heq. apply Hne.
  apply (NoDup_lookup _ j k (id t) Hnd).
  - by rewrite list_lookup_fmap, Hj.
  - by rewrite list_lookup_fmap, Hk, Heq.
Qed.

(** ** Trimming *)

Lemma trimStart_head (s r : jsstring) (c : N) :
  trimStart s = c :: r → isWhiteSpace c = false.
Proof.
  induction s as [|d s IH]; [done|]. simpl.
  destruct (isWhiteSpace d) eqn:Hd; [done|]. by intros [= <- _].
Qed.

Lemma trimStart_blank (s : jsstring) : trimStart s = [] ↔ blank s.
Proof.
  unfold blank. induction s as [|d s IH]; simpl.
  - split; [constructor|done].
  - destruct (isWhiteSpace d) eqn:Hd.
    + rewrite IH. split; [by constructor|]. by inversion 1.
    + split; [done|]. inversion 1; congruence.
Qed.

Lemma trimStart_fixed (s : jsstring) :
  (∀ c, head s = Some c → isWhiteSpace c = false) → trimStart s = s.
Proof.
  destruct s as [|d s]; [done|]. intros Hd. simpl.
  by rewrite (Hd d eq_refl).
Qed.

Lemma trimStart_twice (s : jsstring) : trimStart (trimStart s) = trimStart s.
Proof.
  apply trimStart_fixed. intros c Hc.
  destruct (trimStart s) as [|d r] eqn:Hs; [done|].
  injection Hc as ->. by eapply trimStart_head.
Qed.

Lemma trimStart_snoc (s : jsstring) (c : N) :
  trimStart (s ++ [c])
  = match trimStart s with
    | [] => if isWhiteSpace c then [] else [c]
    | _ :: _ => trimStart s ++ [c]
    end.
Proof.
  induction s as [|d s IH]; simpl.
  - by destruct (isWhiteSpace c).
  - by destruct (isWhiteSpace d).
Qed.

Lemma trimEnd_cons (s : jsstring) (c : N) :
  trimEnd (c :: s)
  = match trimEnd s with
    | [] => if isWhiteSpace c then [] else [c]
    | _ :: _ => c :: trimEnd s
    end.
Proof.
  unfold trimEnd. rewrite reverse_cons, trimStart_snoc.
  destruct (trimStart (reverse s)) as [|d r] eqn:Hs.
  - rewrite reverse_nil. by destruct (isWhiteSpace c).
  - rewrite reverse_app, reverse_singleton. simpl.
    destruct (reverse (d :: r)) as [|e q] eqn:Hr; [|done].
    apply (f_equal reverse) in Hr. by rewrite reverse_involutive in Hr.
Qed.

Lemma trimEnd_blank (s : jsstring) : trimEnd s = [] ↔ blank s.
Proof.
  unfold trimEnd. split.
  - intros Hs. apply (f_equal reverse) in Hs.
    rewrite reverse_involutive, reverse_nil in Hs.
    apply trimStart_blank in Hs. unfold blank in *.
    by rewrite Forall_reverse in Hs.
  - intros Hs. unfold blank in Hs. rewrite <- Forall_reverse in Hs.
    apply trimStart_blank in Hs. by rewrite Hs.
Qed.

Lemma trimEnd_twice (s : jsstring) : trimEnd (trimEnd s) = trimEnd s.
Proof. unfold trimEnd. by rewrite reverse_involutive, trimStart_twice. Qed.

Lemma trimEnd_last (s : jsstring) (c : N) :
  last (trimEnd s) = Some c → isWhiteSpace c = false.
Proof.
  unfold trimEnd. rewrite last_reverse.
  destruct (trimStart (reverse s)) as [|d r] eqn:Hs; [done|].
  intros [= <-]. by eapply trimStart_head.
Qed.

(** Dropping white space at the end keeps a first code unit that is not
    white space. *)
Lemma trimEnd_head (s : jsstring) (c : N) :
  head s = Some c → isWhiteSpace c = false → head (trimEnd s) = Some c.
Proof.
  destruct s as [|d s]; [done|]. intros [= ->] Hc.
  rewrite trimEnd_cons, Hc. by destruct (trimEnd s).
Qed.

Lemma trim_blank (s : jsstring) : trim s = [] ↔ blank s.
Proof.
  unfold trim. rewrite trimEnd_blank. split.
  - intros Hs. apply trimStart_blank.
    destruct (trimStart s) as [|d r] eqn:Hd; [done|].
    apply trimStart_head in Hd. inversion Hs; congruence.
  - intros Hs%trimStart_blank. rewrite Hs. constructor.
Qed.

Lemma trim_head (s : jsstring) (c : N) :
  head (trim s) = Some c → isWhiteSpace c = false.
Proof.
  unfold trim. destruct (trimStart s) as [|d r] eqn:Hs; [done|].
  pose proof (trimStart_head _ _ _ Hs) as Hd.
  rewrite (trimEnd_head (d :: r) d eq_refl Hd). by intros [= <-].
Qed.

Lemma trim_twice (s : jsstring) : trim (trim s) = trim s.
Proof.
  unfold trim at 1. rewrite (trimStart_fixed (trim s)).
  - unfold trim. apply trimEnd_twice.
  - apply trim_head.
Qed.

Lemma trim_trimmed (s : jsstring) : trim s ≠ [] → trimmed (trim s).
Proof.
  intros Hne. split_and!; [done|apply trim_head|apply trimEnd_last].
Qed.

(** ** Adding a task *)

(** X1. [addTask] leaves the world as it is exactly when every code unit
    of the text in the input is white space (the empty text included);
    in every other case the collection grows. *)
Theorem addTask_noop_iff_blank (w : World) :
  (addTask w = w ↔ blank (titleText w)) ∧
  (tasks (addTask w) = tasks w ↔ blank (titleText w)).
Proof.
  assert (blank (titleText w) → addTask w = w) as Hnoop.
  { intros Hb%trim_blank. unfold addTask. by rewrite Hb. }
  assert (tasks (addTask w) = tasks w → blank (titleText w)) as Hgrow.
  { intros Hsame. apply trim_blank.
    destruct (trim (titleText w)) as [|c r] eqn:Ht; [done|].
    apply (f_equal length) in Hsame.
    unfold addTask in Hsame. rewrite Ht in Hsame. simpl in Hsame.
    unfold tasks in Hsame. simpl in Hsame. lia. }
  split; split; auto.
  - intros Hsame. apply Hgrow. by rewrite Hsame.
  - intros Hb. by rewrite Hnoop.
Qed.

(** X2. The [onSubmitEditing] handler of the input does what [addTask]
    does, and [addTask] resets the input when it adds a task, so running
    either right after [addTask] changes nothing: a repeated press adds
    one task, not two. *)
Theorem addTask_once (w : World) :
  onSubmitEditing w = addTask w ∧
  addTask (addTask w) = addTask w ∧
  onSubmitEditing (addTask w) = addTask w ∧
  (¬ blank (titleText w) →
     titleText (addTask w) = [] ∧ haptics (addTask w) = Light :: haptics w).
Proof.
  assert (addTask (addTask w) = addTask w) as Htwice.
  { destruct (not_str (trim (titleText w))) eqn:Hb.
    - assert (addTask w = w) as Hsame by (unfold addTask; by rewrite Hb).
      by rewrite !Hsame.
    - assert (addTask w = impactAsync Light
                (setTitle [] (call (addTodo (trim (titleText w))) w)))
        as Hadd by (unfold addTask; by rewrite Hb).
      by rewrite Hadd. }
  split_and!; [done|done|exact Htwice|].
  intros Hnb. unfold addTask.
  destruct (not_str (trim (titleText w))) eqn:Hb; [|done].
  apply not_str_true, trim_blank in Hb. done.
Qed.

(** Where a task of the collection after a call comes from: it is a
    task of the collection before, up to its [done], or the task
    [prepare] built for [addTodo]. *)
Lemma call_origin (c : Call) (w : World) (t' : Task) :
  t' ∈ tasks (call c w) →
  (∃ t b, t ∈ tasks w ∧ t' = set_done t b) ∨
  (∃ text, c = addTodo text ∧ t' = (prepare text (env w)).1).
Proof.
  assert (∀ t, t ∈ tasks w → ∃ u b, u ∈ tasks w ∧ t = set_done u b) as Hold.
  { intros t Ht. exists t, (done t). by rewrite set_done_same. }
  destruct c; unfold tasks in *; simpl; try (left; by apply Hold).
  - intros [->|Ht]%elem_of_cons; [right; eauto|left; by apply Hold].
  - unfold todosSlice.toggleTodo.
    destruct (list_find _ _) as [[k t]|] eqn:Hf; [|left; by apply Hold].
    simpl. intros [j Hj]%list_elem_of_lookup_1. left.
    apply list_find_Some in Hf as (Hk & _ & _).
    destruct (decide (k = j)) as [->|Hne].
    + rewrite list_lookup_insert_eq in Hj by (by eapply lookup_lt_Some).
      injection Hj as <-. exists t, (negb (done t)). split; [|done].
      by eapply list_elem_of_lookup_2.
    + rewrite list_lookup_insert_ne in Hj by done.
      apply Hold. by eapply list_elem_of_lookup_2.
  - intros [_ Ht]%list_elem_of_filter. left. by apply Hold.
  - intros [_ Ht]%list_elem_of_filter. left. by apply Hold.
Qed.

Lemma handle_origin (e : UIEvent) (w : World) (t' : Task) :
  t' ∈ tasks (handle e w) →
  (∃ t b, t ∈ tasks w ∧ t' = set_done t b) ∨
  (trim (titleText w) ≠ [] ∧ t' = (prepare (trim (titleText w)) (env w)).1).
Proof.
  assert (∀ c, (∀ text, c ≠ addTodo text) → t' ∈ tasks (call c w) →
               ∃ t b, t ∈ tasks w ∧ t' = set_done t b) as Hcall.
  { intros c Hc [?|(text & -> & _)]%call_origin; [done|].
    by destruct (Hc text). }
  assert (t' ∈ tasks (addTask w) →
          (∃ t b, t ∈ tasks w ∧ t' = set_done t b) ∨
          (trim (titleText w) ≠ [] ∧
           t' = (prepare (trim (titleText w)) (env w)).1)) as Hadd.
  { unfold addTask. destruct (not_str (trim (titleText w))) eqn:Hb.
    - intros Ht. left. exists t', (done t'). by rewrite set_done_same.
    - apply not_str_false in Hb.
      intros [?|(text & [= <-] & ->)]%(call_origin (addTodo _)); [by left|].
      by right. }
  destruct e; unfold handle;
    try (intros Ht; left; eapply Hcall; [|exact Ht]; done).
  - intros Ht. left. exists t', (done t'). by rewrite set_done_same.
  - exact Hadd.
  - exact Hadd.
  - unfold handleToggleDone. destruct (negb (done item));
      intros Ht; left; by apply (Hcall (toggleTodo (id item))).
Qed.

(** X3. However the interface is used from the initial world, the title
    of every task in the collection is not empty, begins and ends with a
    code unit that is not white space, and is its own trim. *)
Theorem ui_titles_trimmed (l : list UIEvent) :
  Forall (λ t, trimmed (title t) ∧ trim (title t) = title t)
         (tasks (run (UI <$> l) initialWorld)).
Proof.
  assert (∀ k w,
            Forall (λ t, trimmed (title t) ∧ trim (title t) = title t) (tasks w) →
            Forall (λ t, trimmed (title t) ∧ trim (title t) = title t)
                   (tasks (run (UI <$> k) w))) as Hrun.
  { induction k as [|e k IH]; intros w Hw; [done|].
    apply IH. apply Forall_forall. intros t' Ht'.
    apply handle_origin in Ht' as [(t & b & Ht & ->)|[Hne ->]].
    - rewrite Forall_forall in Hw. exact (Hw t Ht).
    - simpl. split; [by apply trim_trimmed|apply trim_twice]. }
  apply Hrun. constructor.
Qed.

(** ** Removing a task *)

Lemma filter_comm {A} (P Q : A → Prop)
    `{!∀ x, Decision (P x), !∀ x, Decision (Q x)} (l : list A) :
  filter P (filter Q l) = filter Q (filter P l).
Proof. rewrite !list_filter_filter. apply list_filter_iff. tauto. Qed.

(** With no id twice, the filter of [removeTodo] deletes one position. *)
Lemma filter_other_ids_delete (its : list Task) (k : nat) (t : Task) :
  NoDup (id <$> its) → its !! k = Some t →
  filter (λ x, id x ≠ id t) its = delete k its.
Proof.
  revert k. induction its as [|u its IH]; intros k Hnd Hk; [done|].
  rewrite fmap_cons in Hnd. apply NoDup_cons in Hnd as [Hu Hnd].
  destruct k as [|k]; simpl in Hk.
  - injection Hk as ->. rewrite filter_cons_False by tauto. simpl.
    apply filter_all, Forall_forall. intros x Hx Heq.
    apply Hu. rewrite <- Heq. apply list_elem_of_fmap. by exists x.
  - rewrite filter_cons_True.
    + simpl. f_equal. by apply IH.
    + intros Heq. apply Hu. rewrite Heq. apply list_elem_of_fmap.
      exists t. split; [done|]. by eapply list_elem_of_lookup_2.
Qed.

(** X4. Dispatching [removeTodo(id)] keeps a subsequence of the
    collection; a task is in the result exactly when it was in the
    collection with another id, so the id is gone afterwards; every
    subsequence of the collection without the id is a subsequence of the
    result; and a second dispatch with the id changes nothing. *)
Theorem removeTodo_spec (w : World) (i : jsstring) :
  let w' := call (removeTodo i) w in
  tasks w' `sublist_of` tasks w ∧
  (∀ t, t ∈ tasks w' ↔ t ∈ tasks w ∧ id t ≠ i) ∧
  (i ∉ ids w') ∧
  (∀ l, l `sublist_of` tasks w → Forall (λ t, id t ≠ i) l →
        l `sublist_of` tasks w') ∧
  call (removeTodo i) w' = w'.
Proof.
  intros w'.
  assert (tasks w' = filter (λ x, id x ≠ i) (tasks w)) as Hw' by done.
  assert (call (removeTodo i) w' = w') as Hagain.
  { subst w'. unfold call, dispatch, set_store, rootReducer. simpl.
    unfold todosSlice.removeTodo at 1. simpl. by rewrite filter_twice. }
  unfold ids. rewrite Hw'. split_and!.
  - apply sublist_filter.
  - intros t. rewrite list_elem_of_filter. tauto.
  - intros (t & Hid & Ht%list_elem_of_filter)%list_elem_of_fmap.
    by destruct Ht.
  - intros l Hsub Hall. rewrite <- (filter_all (λ x, id x ≠ i) l Hall).
    by apply filter_mono_sublist.
  - exact Hagain.
Qed.

(** X5. When no two tasks share an id, dispatching [removeTodo] with the
    id of the task at index k deletes that position and nothing else:
    the collection gets shorter by exactly one. *)
Theorem removeTodo_unique (w : World) (k : nat) (t : Task) :
  NoDup (ids w) → tasks w !! k = Some t →
  tasks (call (removeTodo (id t)) w) = delete k (tasks w) ∧
  S (length (tasks (call (removeTodo (id t)) w))) = length (tasks w).
Proof.
  intros Hnd Hk.
  assert (tasks (call (removeTodo (id t)) w) = delete k (tasks w)) as ->.
  { unfold tasks in *. simpl. by apply filter_other_ids_delete. }
  split; [done|]. rewrite length_delete by eauto.
  apply lookup_lt_Some in Hk. lia.
Qed.

(** X6. [removeTodo] commutes with [clearTodos] and with a [removeTodo]
    of any other id: the order of the dispatches does not matter for the
    world they give. *)
Theorem remove_commutes (w : World) (i j : jsstring) :
  call (removeTodo i) (call clearTodos w)
  = call clearTodos (call (removeTodo i) w) ∧
  call (removeTodo i) (call (removeTodo j) w)
  = call (removeTodo j) (call (removeTodo i) w).
Proof.
  unfold call, dispatch, set_store, rootReducer. simpl.
  unfold todosSlice.removeTodo, todosSlice.clearTodos. simpl.
  split; f_equal; f_equal; f_equal; apply filter_comm.
Qed.

(** ** The completed tasks *)

Lemma done_negb (l : list Task) :
  filter (λ item, ¬ done item) l = filter (λ item, negb (done item)) l.
Proof. apply list_filter_iff. intros t. by rewrite negb_True. Qed.

Lemma doneExists_true (w : World) :
  doneExists w = true ↔ ∃ t, t ∈ tasks w ∧ done t = true.
Proof.
  unfold doneExists. rewrite bool_decide_eq_true, Exists_exists.
  by setoid_rewrite Is_true_true.
Qed.

(** X7. The list of the Done card is a subsequence of the collection and
    holds exactly its done tasks; the Clear Completed button is there
    ([doneExists]) exactly when that list is not empty. *)
Theorem completedTasks_view (w : World) :
  completedTasks w `sublist_of` tasks w ∧
  (∀ t, t ∈ completedTasks w ↔ t ∈ tasks w ∧ done t = true) ∧
  (doneExists w = true ↔ completedTasks w ≠ []).
Proof.
  assert (∀ t, t ∈ completedTasks w ↔ t ∈ tasks w ∧ done t = true) as Hin.
  { intros t. unfold completedTasks.
    rewrite list_elem_of_filter, Is_true_true. tauto. }
  split_and!; [apply sublist_filter|exact Hin|].
  rewrite doneExists_true. split.
  - intros (t & Ht) Hnil. pose proof (proj2 (Hin t) Ht) as Hc.
    rewrite Hnil in Hc. by apply elem_of_nil in Hc.
  - destruct (completedTasks w) as [|t r] eqn:Hc; [done|]. intros _.
    exists t. apply Hin. by left.
Qed.

(** X8. Dispatching [clearTodos] splits the collection: the tasks it
    keeps together with the tasks the Done card listed are the
    collection up to order. Afterwards the Done card is empty and the
    Clear Completed button is gone; and when the button was there, the
    collection has become shorter. *)
Theorem clearTodos_partition (w : World) :
  let w' := call clearTodos w in
  tasks w' ++ completedTasks w ≡ₚ tasks w ∧
  length (tasks w') + length (completedTasks w) = length (tasks w) ∧
  completedTasks w' = [] ∧
  doneExists w' = false ∧
  (doneExists w = true → length (tasks w') < length (tasks w)).
Proof.
  intros w'.
  assert (tasks w' ++ completedTasks w ≡ₚ tasks w) as Hperm.
  { subst w'. unfold completedTasks, tasks. simpl.
    rewrite <- done_negb.
    rewrite (comm (++)). apply filter_app_complement. }
  assert (completedTasks w' = []) as Hnone.
  { subst w'. unfold completedTasks, tasks. simpl.
    rewrite list_filter_filter. apply elem_of_nil_inv.
    intros t [[Hd Hn] _]%list_elem_of_filter.
    by destruct (done t). }
  assert (length (tasks w') + length (completedTasks w) = length (tasks w))
    as Hlen.
  { by rewrite <- Hperm, length_app. }
  split_and!; [done|done|done| |].
  - destruct (doneExists w') eqn:Hex; [|done].
    apply doneExists_true in Hex as (t & Ht & Hd).
    assert (t ∈ completedTasks w') as Hin.
    { unfold completedTasks. apply list_elem_of_filter.
      by rewrite Is_true_true. }
    rewrite Hnone in Hin. by apply elem_of_nil in Hin.
  - intros (t & Ht & Hd)%doneExists_true.
    assert (t ∈ completedTasks w) as Hin.
    { unfold completedTasks. apply list_elem_of_filter.
      by rewrite Is_true_true. }
    destruct (completedTasks w); [by apply elem_of_nil in Hin|].
    simpl in Hlen. lia.
Qed.

(** X9. Dispatching [toggleTodo] with the id of a task moves the first
    task with that id between the two cards: if it was not done, it is
    on the Done card afterwards, which has one entry more; if it was
    done, the Done card has one entry less. *)
Theorem toggle_moves (w : World) (i : jsstring) (k : nat) (t : Task) :
  list_find (λ x, id x = i) (tasks w) = Some (k, t) →
  let w' := call (toggleTodo i) w in
  (done t = false →
     set_done t true ∈ completedTasks w' ∧
     length (completedTasks w') = S (length (completedTasks w))) ∧
  (done t = true →
     tasks w' !! k = Some (set_done t false) ∧
     S (length (completedTasks w')) = length (completedTasks w)).
Proof.
  intros Hf w'.
  pose proof Hf as (Hk & _ & _)%list_find_Some.
  assert (tasks w' = take k (tasks w) ++
                     set_done t (negb (done t)) :: drop (S k) (tasks w)) as Hw'.
  { subst w'. unfold tasks in *. simpl.
    rewrite (toggleTodo_found _ i k t Hf). simpl.
    apply insert_take_drop. by eapply lookup_lt_Some. }
  assert (tasks w = take k (tasks w) ++ t :: drop (S k) (tasks w)) as Hw.
  { symmetry. by apply take_drop_middle. }
  assert (length (take k (tasks w)) = k) as Hlen.
  { rewrite length_take. apply lookup_lt_Some in Hk. lia. }
  revert Hw Hw' Hlen.
  generalize (take k (tasks w)) (drop (S k) (tasks w)). intros l1 l2 Hw Hw' Hlen.
  unfold completedTasks. rewrite Hw', Hw.
  rewrite !filter_app, !filter_cons, !length_app.
  split; intros Hd; rewrite Hd; simpl.
  - split; [|lia]. apply elem_of_app. right. by left.
  - split; [|lia]. by apply list_lookup_middle.
Qed.

(** ** Completion and its notification *)

Lemma same_id_same_task (its : list Task) (t u : Task) :
  NoDup (id <$> its) → t ∈ its → u ∈ its → id t = id u → t = u.
Proof.
  intros Hnd [j Hj]%list_elem_of_lookup_1 [k Hk]%list_elem_of_lookup_1 Heq.
  assert (j = k) as ->; [|congruence].
  apply (NoDup_lookup _ j k (id t) Hnd).
  - by rewrite list_lookup_fmap, Hj.
  - by rewrite list_lookup_fmap, Hk, Heq.
Qed.

(** A task of the collection after [toggleTodo] was there before, or it
    is the flipped first task with the id. *)
Lemma toggle_elem (w : World) (i : jsstring) (t' : Task) :
  t' ∈ tasks (call (toggleTodo i) w) →
  t' ∈ tasks w ∨
  ∃ k u, list_find (λ x, id x = i) (tasks w) = Some (k, u) ∧
         t' = set_done u (negb (done u)).
Proof.
  unfold tasks. simpl. unfold todosSlice.toggleTodo.
  destruct (list_find _ _) as [[k u]|] eqn:Hf; [|by left].
  simpl. intros [j Hj]%list_elem_of_lookup_1.
  pose proof Hf as (Hk & _ & _)%list_find_Some.
  destruct (decide (k = j)) as [->|Hne].
  - rewrite list_lookup_insert_eq in Hj by (by eapply lookup_lt_Some).
    injection Hj as <-. right. by exists j, u.
  - rewrite list_lookup_insert_ne in Hj by done.
    left. by eapply list_elem_of_lookup_2.
Qed.

(** Toggling with the id of a done task of a collection without
    repeated ids completes nothing. *)
Lemma toggle_done_task (w : World) (item t' : Task) :
  NoDup (ids w) → item ∈ tasks w → done item = true →
  t' ∈ tasks (call (toggleTodo (id item)) w) →
  t' ∈ tasks w ∨ done t' = false.
Proof.
  intros Hnd Hitem Hd [?|(k & u & Hf & ->)]%toggle_elem; [by left|].
  right. apply list_find_Some in Hf as (Hk & Hid & _).
  assert (u = item) as ->.
  { apply (same_id_same_task (tasks w)); [done| |done|done].
    by eapply list_elem_of_lookup_2. }
  simpl. by rewrite Hd.
Qed.

(** X10. In a world without repeated ids, no event the interface offers
    completes a task silently: if a task that was not done is done after
    the event, [doneNotificationVisible] is true after it. (The Undo
    button dispatches [toggleTodo] alone; it is offered for done tasks
    only.) *)
Theorem completion_is_notified (w : World) (e : UIEvent) (t t' : Task) :
  NoDup (ids w) → offered w e →
  t ∈ tasks w → done t = false →
  t' ∈ tasks (handle e w) → id t' = id t → done t' = true →
  doneNotificationVisible (flags (handle e w)) = true.
Proof.
  intros Hnd Hoff Ht Hd Ht' Hid Hd'.
  assert (t' ∈ tasks w → False) as Hold.
  { intros Hin. assert (t' = t) as -> by by eapply same_id_same_task.
    congruence. }
  assert (∀ v, t' ∈ tasks (addTask v) → tasks v = tasks w → False) as Hadd.
  { intros v Hin Hv. unfold addTask in Hin.
    destruct (not_str (trim (titleText v))).
    - apply Hold. by rewrite <- Hv.
    - unfold tasks in Hin, Hv. simpl in Hin.
      apply elem_of_cons in Hin as [->|Hin]; [done|].
      apply Hold. unfold tasks. by rewrite <- Hv. }
  assert (∀ item, item ∈ tasks w → done item = true →
                  t' ∈ tasks (call (toggleTodo (id item)) w) → False) as Htog.
  { intros item Hitem Hdone [?|?]%toggle_done_task; try done. congruence. }
  destruct e; unfold handle in *; simpl in Hoff.
  - by destruct Hold.
  - by destruct Hold.
  - by destruct Hold.
  - by destruct Hold.
  - by destruct (Hadd w).
  - by destruct (Hadd w).
  - unfold handleToggleDone in *.
    destruct (done item) eqn:Hitem; simpl in *; [|done].
    by destruct (Htog item).
  - destruct Hold. unfold tasks in *. simpl in Ht'.
    by apply list_elem_of_filter in Ht' as [_ ?].
  - destruct Hold. unfold tasks in *. simpl in Ht'.
    by apply list_elem_of_filter in Ht' as [_ ?].
  - unfold completedTasks in Hoff.
    apply list_elem_of_filter in Hoff as [Hdone%Is_true_true Hitem].
    by destruct (Htog item).
Qed.

(** X11. Once visible, the completion notification stays until its own
    Got it button is pressed: no other event of the interface and, of
    the eight calls, none but [dismissDoneNotification] takes
    [doneNotificationVisible] from true to false; and that button is
    offered exactly while the flag is true. *)
Theorem notification_stays (w : World) :
  doneNotificationVisible (flags w) = true →
  (∀ e, e ≠ GotItDoneNotification →
        doneNotificationVisible (flags (handle e w)) = true) ∧
  (∀ c, c ≠ dismissDoneNotification →
        doneNotificationVisible (flags (call c w)) = true) ∧
  offered w GotItDoneNotification ∧
  doneNotificationVisible (flags (handle GotItDoneNotification w)) = false.
Proof.
  intros Hon.
  assert (∀ c, c ≠ dismissDoneNotification →
               doneNotificationVisible (flags (call c w)) = true) as Hcall.
  { intros c Hc. by destruct c. }
  split_and!; [|exact Hcall|done|done].
  intros e He. destruct e; unfold handle; try (by apply Hcall); try done.
  - unfold onSubmitEditing. by destruct (not_str _).
  - unfold addTask. by destruct (not_str _).
  - unfold handleToggleDone. by destruct (negb _).
Qed.

(** X12. [handleToggleDone] goes by the [currentDone] it is given, not
    by the store: with an id that no task has and [currentDone] false it
    leaves the collection as it is and still sets
    [doneNotificationVisible]. *)
Theorem handleToggleDone_unknown_id (w : World) (i : jsstring) :
  i ∉ ids w →
  tasks (handleToggleDone i false w) = tasks w ∧
  doneNotificationVisible (flags (handleToggleDone i false w)) = true ∧
  handleToggleDone i true w = w.
Proof.
  intros Hi. unfold ids, tasks in Hi.
  unfold handleToggleDone, call, dispatch, rootReducer, tasks, flags. simpl.
  rewrite toggleTodo_absent by done.
  split_and!; [done|done|]. by rewrite root_eta, set_store_same.
Qed.

(** ** The theme *)

Lemma step_darkMode (s : Step) (w : World) :
  darkMode (flags (step s w))
  = if flips_theme s then negb (darkMode (flags w)) else darkMode (flags w).
Proof.
  destruct s as [c|e]; [by destruct c|].
  destruct e; try done; simpl.
  - unfold onSubmitEditing. by destruct (not_str _).
  - unfold addTask. by destruct (not_str _).
  - unfold handleToggleDone. by destruct (negb _).
Qed.

(** X13. After a sequence of steps [darkMode] is what it was when the
    number of theme switches in the sequence is even, and the opposite
    when it is odd; no other step touches it. *)
Theorem darkMode_parity (l : list Step) (w : World) :
  darkMode (flags (run l w))
  = if Nat.even (length (filter (λ s, flips_theme s) l))
    then darkMode (flags w)
    else negb (darkMode (flags w)).
Proof.
  revert w. induction l as [|s l IH]; intros w; [done|].
  change (run (s :: l) w) with (run l (step s w)).
  rewrite IH, step_darkMode.
  destruct (flips_theme s) eqn:Hs.
  - rewrite filter_cons_True by (by apply Is_true_true).
    rewrite length_cons, Nat.even_succ, <- Nat.negb_even.
    destruct (Nat.even _); simpl; [done|]. by rewrite negb_involutive.
  - rewrite filter_cons_False by (by apply Is_true_false). done.
Qed.

(** ** The history of the collection *)

Lemma call_summary (c : Call) (w : World) :
  haptics (call c w) = haptics w ∧ titleText (call c w) = titleText w ∧
  (stamps (call c w) `sublist_of` stamps w ∧ env (call c w) = env w ∨
   stamps (call c w)
   = (nanoid (nanoidCalls (env w)), Date_now (nowCalls (env w))) :: stamps w ∧
   env (call c w) = next_env (env w)).
Proof.
  split; [by destruct c|]. split; [by destruct c|].
  destruct c; try (by left); [by right | left .. ]; (split; [|done]);
    unfold stamps, tasks; simpl.
  - unfold todosSlice.toggleTodo.
    destruct (list_find _ _) as [[k t]|] eqn:Hf; [|done].
    apply list_find_Some in Hf as (Hk & _ & _). simpl.
    by rewrite (insert_same_field stamp _ k t).
  - apply fmap_sublist, sublist_filter.
  - apply fmap_sublist, sublist_filter.
Qed.

(** An event of the interface draws nothing and keeps a subsequence of
    the stamps, or it adds one task, with the next id and clock reading
    and one light impact. *)
Lemma handle_summary (e : UIEvent) (w : World) :
  stamps (handle e w) `sublist_of` stamps w ∧ env (handle e w) = env w ∧
  haptics (handle e w) = haptics w ∨
  stamps (handle e w)
  = (nanoid (nanoidCalls (env w)), Date_now (nowCalls (env w))) :: stamps w ∧
  env (handle e w) = next_env (env w) ∧
  haptics (handle e w) = Light :: haptics w.
Proof.
  assert (∀ c, (∀ text, c ≠ addTodo text) →
               stamps (call c w) `sublist_of` stamps w ∧
               env (call c w) = env w ∧ haptics (call c w) = haptics w)
    as Hcall.
  { intros c Hc.
    assert (env (call c w) = env w) as Henv.
    { destruct c as [| | | |text| | |]; try done. by destruct (Hc text). }
    destruct (call_summary c w) as (Hh & _ & [[? ?]|[_ He]]); [done|].
    rewrite Henv in He. apply (f_equal nanoidCalls) in He.
    simpl in He. lia. }
  destruct e; unfold handle; try (left; apply Hcall; done).
  - by left.
  - unfold onSubmitEditing. destruct (not_str _); [by left | by right].
  - unfold addTask. destruct (not_str _); [by left | by right].
  - unfold handleToggleDone. left.
    destruct (negb _); [|apply Hcall; done].
    by destruct (Hcall (toggleTodo (id item))) as (? & ? & ?).
Qed.

Lemma newest_first_mono (m n : nat) (l : list (jsstring * Z)) :
  m ≤ n → newest_first m l → newest_first n l.
Proof.
  destruct l as [|p r]; [done|]. simpl.
  intros Hmn (k & Hk & Hp & Hr). exists k. split; [lia|done].
Qed.

Lemma newest_first_sublist (n : nat) (l1 l2 : list (jsstring * Z)) :
  l1 `sublist_of` l2 → newest_first n l2 → newest_first n l1.
Proof.
  intros Hsub. revert n.
  induction Hsub as [|p l1 l2 _ IH|p l1 l2 _ IH]; intros n; [done| |]; simpl.
  - intros (k & Hk & Hp & Hr). exists k. eauto.
  - intros (k & Hk & _ & Hr). apply IH.
    apply (newest_first_mono k); [lia|done].
Qed.

Lemma newest_first_lookup (n i : nat) (l : list (jsstring * Z))
    (p : jsstring * Z) :
  newest_first n l → l !! i = Some p →
  ∃ k, k < n ∧ p = (nanoid k, Date_now k) ∧ newest_first k (drop (S i) l).
Proof.
  revert n i. induction l as [|q l IH]; intros n i; [done|]. simpl.
  intros (k & Hk & Hq & Hr). destruct i as [|i]; simpl.
  - intros [= <-]. eauto.
  - intros Hi. destruct (IH k i Hr Hi) as (k' & Hk' & Hp & Hr').
    exists k'. split; [lia|done].
Qed.

Lemma step_history_ok (s : Step) (w : World) :
  history_ok w → history_ok (step s w).
Proof.
  intros [Hnow Hnew]. unfold history_ok.
  assert (stamps (step s w) `sublist_of` stamps w ∧ env (step s w) = env w ∨
          stamps (step s w)
          = (nanoid (nanoidCalls (env w)), Date_now (nowCalls (env w)))
              :: stamps w ∧
          env (step s w) = next_env (env w)) as [[Hsub ->]|[-> ->]].
  { destruct s as [c|e]; simpl.
    - apply call_summary.
    - destruct (handle_summary e w) as [(? & ? & _)|(? & ? & _)]; eauto. }
  - split; [done|]. by eapply newest_first_sublist.
  - simpl. split; [by rewrite Hnow|].
    exists (nanoidCalls (env w)). rewrite Hnow. split_and!; [lia|done|done].
Qed.

Lemma run_history_ok (l : list Step) (w : World) :
  history_ok w → history_ok (run l w).
Proof.
  revert w. induction l as [|s l IH]; intros w Hw; [done|].
  apply IH. by apply step_history_ok.
Qed.

Lemma initial_history_ok : history_ok initialWorld.
Proof. done. Qed.

(** X14. In the world reached from the initial one by any sequence of
    steps, every task carries the id and the clock reading of one call
    of [prepare], and the collection is in the order of these calls,
    latest first: of two tasks, the one nearer to the front comes from
    the later call. *)
Theorem tasks_newest_first (l : list Step) :
  let w := run l initialWorld in
  (∀ i t, tasks w !! i = Some t →
          ∃ a, a < nanoidCalls (env w) ∧
               id t = nanoid a ∧ createdAt t = Date_now a) ∧
  (∀ i j t u, tasks w !! i = Some t → tasks w !! j = Some u → i < j →
              ∃ a b, b < a ∧ a < nanoidCalls (env w) ∧
                     id t = nanoid a ∧ createdAt t = Date_now a ∧
                     id u = nanoid b ∧ createdAt u = Date_now b).
Proof.
  intros w.
  destruct (run_history_ok l initialWorld initial_history_ok) as [_ Hnew].
  fold w in Hnew.
  assert (∀ i t, tasks w !! i = Some t → stamps w !! i = Some (stamp t))
    as Hst.
  { intros i t Hi. unfold stamps. by rewrite list_lookup_fmap, Hi. }
  split.
  - intros i t Hi%Hst.
    destruct (newest_first_lookup _ _ _ _ Hnew Hi) as (a & Ha & [= ? ?] & _).
    eauto.
  - intros i j t u Hi%Hst Hj%Hst Hij.
    destruct (newest_first_lookup _ _ _ _ Hnew Hi) as (a & Ha & [= ? ?] & Hr).
    assert (drop (S i) (stamps w) !! (j - S i) = Some (stamp u)) as Hj'.
    { rewrite lookup_drop. by replace (S i + (j - S i)) with j by lia. }
    destruct (newest_first_lookup _ _ _ _ Hr Hj') as (b & Hb & [= ? ?] & _).
    exists a, b. split_and!; done.
Qed.

(** X15. When the clock never goes back from one reading to the next,
    the collection reached from the initial world by any sequence of
    steps is sorted by [createdAt], latest first. *)
Theorem tasks_sorted_by_createdAt (l : list Step) :
  (∀ a b, a ≤ b → (Date_now a ≤ Date_now b)%Z) →
  let w := run l initialWorld in
  ∀ i j t u, tasks w !! i = Some t → tasks w !! j = Some u → i ≤ j →
             (createdAt u ≤ createdAt t)%Z.
Proof.
  intros Hclock w i j t u Hi Hj Hij.
  destruct (decide (i = j)) as [->|Hne].
  { rewrite Hi in Hj. injection Hj as ->. lia. }
  destruct (run_history_ok l initialWorld initial_history_ok) as [_ Hnew].
  fold w in Hnew.
  assert (stamps w !! i = Some (stamp t)) as Hi'.
  { unfold stamps. by rewrite list_lookup_fmap, Hi. }
  assert (drop (S i) (stamps w) !! (j - S i) = Some (stamp u)) as Hj'.
  { rewrite lookup_drop. replace (S i + (j - S i)) with j by lia.
    unfold stamps. by rewrite list_lookup_fmap, Hj. }
  destruct (newest_first_lookup _ _ _ _ Hnew Hi') as (a & Ha & [= _ ->] & Hr).
  destruct (newest_first_lookup _ _ _ _ Hr Hj') as (b & Hb & [= _ ->] & _).
  apply Hclock. lia.
Qed.

(** ** Counters *)

Lemma step_counters (s : Step) (w : World) :
  length (tasks w) ≤ nanoidCalls (env w) →
  length (haptics w) ≤ nanoidCalls (env w) →
  Forall (λ h, h = Light) (haptics w) →
  length (tasks (step s w)) ≤ nanoidCalls (env (step s w)) ∧
  length (haptics (step s w)) ≤ nanoidCalls (env (step s w)) ∧
  Forall (λ h, h = Light) (haptics (step s w)).
Proof.
  intros Ht Hh Hl.
  assert (length (tasks (step s w)) = length (stamps (step s w))) as ->.
  { unfold stamps. by rewrite length_fmap. }
  assert (length (tasks w) = length (stamps w)) as Hlen.
  { unfold stamps. by rewrite length_fmap. }
  destruct s as [c|e]; simpl.
  - destruct (call_summary c w) as (-> & _ & [[Hs ->]|[-> ->]]).
    + apply sublist_length in Hs. split_and!; [lia|done|done].
    + simpl. split_and!; [lia|lia|done].
  - destruct (handle_summary e w) as [(Hs & -> & ->)|(-> & -> & ->)].
    + apply sublist_length in Hs. split_and!; [lia|done|done].
    + simpl. split_and!; [lia|lia|by constructor].
Qed.

(** X16. In the world reached from the initial one by any sequence of
    steps, [nanoid] and [Date.now] have been called equally often, the
    collection has at most as many tasks as ids were drawn, and there
    were at most as many haptic impacts, all of them light. *)
Theorem run_counters (l : list Step) :
  let w := run l initialWorld in
  nowCalls (env w) = nanoidCalls (env w) ∧
  length (tasks w) ≤ nanoidCalls (env w) ∧
  length (haptics w) ≤ nanoidCalls (env w) ∧
  Forall (λ h, h = Light) (haptics w).
Proof.
  intros w. split.
  { by destruct (run_history_ok l initialWorld initial_history_ok). }
  subst w.
  assert (∀ v, length (tasks v) ≤ nanoidCalls (env v) →
               length (haptics v) ≤ nanoidCalls (env v) →
               Forall (λ h, h = Light) (haptics v) →
               length (tasks (run l v)) ≤ nanoidCalls (env (run l v)) ∧
               length (haptics (run l v)) ≤ nanoidCalls (env (run l v)) ∧
               Forall (λ h, h = Light) (haptics (run l v))) as Hrun.
  { induction l as [|s l IH]; intros v Ht Hh Hl; [done|].
    destruct (step_counters s v Ht Hh Hl) as (? & ? & ?). by apply IH. }
  apply Hrun; simpl; [lia|lia|constructor].
Qed.

(** X17. When the collection is changed through the interface alone,
    every id drawn comes with one light haptic impact: after any
    sequence of events from the initial world there are as many impacts
    as calls of [nanoid]. *)
Theorem ui_haptic_per_task (l : list UIEvent) :
  let w := run (UI <$> l) initialWorld in
  length (haptics w) = nanoidCalls (env w).
Proof.
  intros w. subst w.
  assert (∀ v, length (haptics v) = nanoidCalls (env v) →
               length (haptics (run (UI <$> l) v))
               = nanoidCalls (env (run (UI <$> l) v))) as Hrun.
  { induction l as [|e l IH]; intros v Hv; [done|].
    apply IH. simpl.
    destruct (handle_summary e v) as [(_ & -> & ->)|(_ & -> & ->)];
      [done|]. simpl. lia. }
  by apply Hrun.
Qed.

(** ** Adding and removing *)

(** X18. Removing the task [addTask] has just added gives the collection
    as it was before, when the new id was not yet the id of a task. *)
Theorem add_then_remove (w : World) :
  ¬ blank (titleText w) →
  nanoid (nanoidCalls (env w)) ∉ ids w →
  tasks (call (removeTodo (nanoid (nanoidCalls (env w)))) (addTask w))
  = tasks w.
Proof.
  intros Hnb Hfresh.
  assert (not_str (trim (titleText w)) = false) as Hb.
  { apply not_str_false. by rewrite trim_blank. }
  unfold addTask. rewrite Hb. unfold tasks. simpl.
  rewrite filter_cons_False by (simpl; tauto).
  apply filter_all, Forall_forall. intros x Hx Heq.
  apply Hfresh. rewrite <- Heq. apply list_elem_of_fmap. by exists x.
Qed.

(** ** Toggling, by recursion *)

Lemma toggleTodo_flip_first (state : TodosState) (i : jsstring) :
  items (todosSlice.toggleTodo state i) = flip_first i (items state).
Proof.
  destruct state as [its]. unfold todosSlice.toggleTodo. simpl.
  induction its as [|x its IH]; [done|]. simpl.
  case_decide; [done|].
  destruct (list_find _ its) as [[k t]|]; simpl in *; by rewrite <- IH.
Qed.

Lemma flip_first_comm (i j : jsstring) (l : list Task) :
  i ≠ j → flip_first i (flip_first j l) = flip_first j (flip_first i l).
Proof.
  intros Hij. induction l as [|x l IH]; [done|]. simpl.
  destruct (decide (id x = j)) as [Hj|Hj], (decide (id x = i)) as [Hi|Hi];
    simpl; try congruence.
  - rewrite decide_False, decide_True by done. done.
  - rewrite decide_True, decide_False by done. done.
  - rewrite !decide_False by done. by rewrite IH.
Qed.

Lemma flip_first_filter (i j : jsstring) (l : list Task) :
  i ≠ j →
  filter (λ x, id x ≠ j) (flip_first i l)
  = flip_first i (filter (λ x, id x ≠ j) l).
Proof.
  intros Hij. induction l as [|x l IH]; [done|]. simpl.
  destruct (decide (id x = i)) as [Hi|Hi].
  - rewrite !filter_cons_True by (simpl; congruence).
    simpl. by rewrite decide_True.
  - rewrite !filter_cons. case_decide; [|done].
    simpl. rewrite decide_False by done. by rewrite IH.
Qed.

Lemma todos_eta (state : TodosState) : {| items := items state |} = state.
Proof. by destruct state. Qed.

(** X19. Dispatches of [toggleTodo] with two different ids commute, and
    [toggleTodo] commutes with a [removeTodo] of another id: either
    order gives the same world. *)
Theorem toggle_commutes (w : World) (i j : jsstring) :
  i ≠ j →
  call (toggleTodo i) (call (toggleTodo j) w)
  = call (toggleTodo j) (call (toggleTodo i) w) ∧
  call (toggleTodo i) (call (removeTodo j) w)
  = call (removeTodo j) (call (toggleTodo i) w).
Proof.
  intros Hij.
  assert (∀ s1 s2 : TodosState, items s1 = items s2 → s1 = s2) as Hext.
  { intros [a] [b]. simpl. by intros ->. }
  unfold call, dispatch, set_store, rootReducer. simpl.
  split; f_equal; f_equal; apply Hext.
  - rewrite !toggleTodo_flip_first. by apply flip_first_comm.
  - rewrite toggleTodo_flip_first. simpl.
    rewrite toggleTodo_flip_first. symmetry. by apply flip_first_filter.
Qed.

End Environment.

(** * Instances *)

Lemma addTask_blank_noop_witness :
  let w := sample_world [sample_task 0 false] (js "   ") in
  trim (titleText w) = [] ∧
  addTask sample_nanoid sample_now w = w ∧
  addTask sample_nanoid sample_now (sample_world [] (js "")) = sample_world [] (js "").
Proof.
  split; [reflexivity|]. split.
  - apply (addTask_blank_noop sample_nanoid sample_now). reflexivity.
  - apply (addTask_blank_noop sample_nanoid sample_now). reflexivity.
Defined.

Lemma addTask_prepends_witness :
  let w := sample_world [sample_task 0 true] (js " Walk dog ") in
  trim (titleText w) ≠ [] ∧
  tasks (addTask sample_nanoid sample_now w)
  = [ {| id := sample_nanoid 1; title := js "Walk dog"; done := false;
         createdAt := sample_now 1 |}; sample_task 0 true ].
Proof.
  split; [discriminate|].
  apply (addTask_prepends sample_nanoid sample_now). discriminate.
Defined.

Lemma unknown_id_noop_witness :
  let w := sample_world [sample_task 0 false; sample_task 1 true] [] in
  (sample_nanoid 7 ∉ id <$> tasks w) ∧
  call sample_nanoid sample_now (toggleTodo (sample_nanoid 7)) w = w ∧
  call sample_nanoid sample_now (removeTodo (sample_nanoid 7)) w = w.
Proof.
  assert (sample_nanoid 7 ∉
            id <$> tasks (sample_world [sample_task 0 false; sample_task 1 true] []))
    as Hi by decide_by_compute.
  split; [exact Hi|].
  apply (unknown_id_noop sample_nanoid sample_now), Hi.
Defined.

Lemma slices_separate_witness :
  let w := sample_world [sample_task 0 false] [] in
  tasks (call sample_nanoid sample_now toggleDarkMode w) = tasks w ∧
  flags (call sample_nanoid sample_now (addTodo (js "x")) w) = flags w.
Proof.
  split.
  - by apply (slices_separate sample_nanoid sample_now).
  - by apply (slices_separate sample_nanoid sample_now).
Defined.

Lemma banner_stays_dismissed_witness :
  let w := call sample_nanoid sample_now dismissBanner initialWorld in
  let l := [UI (ChangeText (js "a")); UI PressAdd; Dispatch toggleDarkMode;
            UI (PressDone (sample_task 0 false))] in
  showBanner (flags w) = false ∧
  showBanner (flags (run sample_nanoid sample_now l w)) = false.
Proof.
  split; [reflexivity|].
  apply (banner_stays_dismissed sample_nanoid sample_now). reflexivity.
Defined.

Lemma clearTodos_spec_witness :
  let w := sample_world [sample_task 1 false; sample_task 0 false] [] in
  Forall (λ t, done t = false) (tasks w) ∧
  call sample_nanoid sample_now clearTodos w = w.
Proof.
  assert (Forall (λ t, done t = false)
            (tasks (sample_world [sample_task 1 false; sample_task 0 false] [])))
    as Hall by decide_by_compute.
  split; [exact Hall|].
  apply (clearTodos_spec sample_nanoid sample_now), Hall.
Defined.

Lemma toggle_twice_witness :
  let w := sample_world [sample_task 1 false; sample_task 0 true] [] in
  let i := sample_nanoid 0 in
  (i ∈ id <$> tasks w) ∧
  ∃ k t, tasks w !! k = Some t ∧ id t = i ∧
         tasks (call sample_nanoid sample_now (toggleTodo i) w) !! k
           = Some (set_done t (negb (done t))) ∧
         tasks (call sample_nanoid sample_now (toggleTodo i)
                  (call sample_nanoid sample_now (toggleTodo i) w)) !! k
           = Some t ∧
         call sample_nanoid sample_now (toggleTodo i)
           (call sample_nanoid sample_now (toggleTodo i) w) = w.
Proof.
  assert (sample_nanoid 0 ∈
            id <$> tasks (sample_world [sample_task 1 false; sample_task 0 true] []))
    as Hin by decide_by_compute.
  split; [exact Hin|].
  apply (toggle_twice sample_nanoid sample_now), Hin.
Defined.



(** With an id generator that repeats itself, two tasks added one after
    the other share their id. *)
Lemma ids_repeat_with_nanoid :
  let l := [UI (ChangeText (js "Buy milk")); UI PressAdd;
            UI (ChangeText (js "Walk dog")); UI PressAdd] in
  let w := run repeating_nanoid sample_now l initialWorld in
  length (tasks w) = 2 ∧ ¬ NoDup (id <$> tasks w).
Proof. split; [reflexivity|decide_by_compute]. Qed.

Lemma ids_unique_witness :
  let l := [UI (ChangeText (js "Buy milk")); UI PressAdd;
            UI (ChangeText (js "Buy milk")); UI PressAdd;
            Dispatch (removeTodo (sample_nanoid 0));
            UI (ChangeText (js "Walk dog")); UI SubmitEditing] in
  let w := run sample_nanoid sample_now l initialWorld in
  NoDup (sample_nanoid <$> seq 0 (nanoidCalls (env w))) ∧
  createdAt <$> tasks w = [sample_now 0; sample_now 0] ∧
  NoDup (id <$> tasks w).
Proof.
  assert (NoDup (sample_nanoid <$> seq 0 3)) as Hdraws by decide_by_compute.
  split; [exact Hdraws|]. split; [reflexivity|].
  apply (ids_unique sample_nanoid sample_now
           [UI (ChangeText (js "Buy milk")); UI PressAdd;
            UI (ChangeText (js "Buy milk")); UI PressAdd;
            Dispatch (removeTodo (sample_nanoid 0));
            UI (ChangeText (js "Walk dog")); UI SubmitEditing]).
  exact Hdraws.
Defined.

Lemma toggle_frame_witness :
  let w := sample_world [sample_task 1 false; sample_task 0 true] [] in
  let w' := call sample_nanoid sample_now (toggleTodo (sample_nanoid 0)) w in
  tasks w !! 0 = Some (sample_task 1 false) ∧
  sample_nanoid 1 ≠ sample_nanoid 0 ∧
  tasks w' !! 0 = Some (sample_task 1 false).
Proof.
  split; [reflexivity|]. split; [discriminate|].
  apply (toggle_frame sample_nanoid sample_now); [reflexivity|discriminate].
Defined.

(** The scenario of the specification: add "Buy milk", mark it done,
    dismiss the notification, clear the completed tasks. *)
Example buy_milk_scenario :
  let w1 := run sample_nanoid sample_now
              [UI (ChangeText (js "Buy milk")); UI PressAdd] initialWorld in
  let w2 := handle sample_nanoid sample_now
              (PressDone (sample_task 0 false)) w1 in
  let w3 := handle sample_nanoid sample_now GotItDoneNotification w2 in
  let w4 := handle sample_nanoid sample_now PressClearCompleted w3 in
  tasks w1 = [sample_task 0 false] ∧
  tasks w2 = [sample_task 0 true] ∧
  doneNotificationVisible (flags w2) = true ∧
  doneNotificationVisible (flags w3) = false ∧
  tasks w4 = [].
Proof. by vm_compute. Qed.

Lemma addTask_once_witness :
  let w := sample_world [sample_task 0 false] (js " Walk dog ") in
  ¬ blank (titleText w) ∧
  titleText (addTask sample_nanoid sample_now w) = [] ∧
  haptics (addTask sample_nanoid sample_now w) = [Light].
Proof.
  assert (¬ blank (titleText (sample_world [sample_task 0 false] (js " Walk dog "))))
    as Hnb by decide_by_compute.
  split; [exact Hnb|].
  apply (addTask_once sample_nanoid sample_now), Hnb.
Defined.

Lemma removeTodo_unique_witness :
  let w := sample_world [sample_task 2 false; sample_task 1 true;
                         sample_task 0 false] [] in
  NoDup (ids w) ∧ tasks w !! 1 = Some (sample_task 1 true) ∧
  tasks (call sample_nanoid sample_now (removeTodo (sample_nanoid 1)) w)
  = [sample_task 2 false; sample_task 0 false].
Proof.
  assert (NoDup (ids (sample_world [sample_task 2 false; sample_task 1 true;
                                    sample_task 0 false] [])))
    as Hnd by decide_by_compute.
  split; [exact Hnd|]. split; [reflexivity|].
  apply (removeTodo_unique sample_nanoid sample_now _ 1 (sample_task 1 true) Hnd).
  reflexivity.
Defined.

Lemma clearTodos_partition_witness :
  let w := sample_world [sample_task 1 true; sample_task 0 false] [] in
  doneExists w = true ∧
  length (tasks (call sample_nanoid sample_now clearTodos w)) < length (tasks w).
Proof.
  split; [reflexivity|].
  apply (clearTodos_partition sample_nanoid sample_now). reflexivity.
Defined.

Lemma toggle_moves_witness :
  let w := sample_world [sample_task 1 false; sample_task 0 true] [] in
  let w' := call sample_nanoid sample_now (toggleTodo (sample_nanoid 1)) w in
  list_find (λ x, id x = sample_nanoid 1) (tasks w)
  = Some (0, sample_task 1 false) ∧
  set_done (sample_task 1 false) true ∈ completedTasks w' ∧
  length (completedTasks w') = S (length (completedTasks w)).
Proof.
  split; [reflexivity|].
  apply (toggle_moves sample_nanoid sample_now _ (sample_nanoid 1) 0
           (sample_task 1 false)); reflexivity.
Defined.

Lemma completion_is_notified_witness :
  let w := sample_world [sample_task 1 false; sample_task 0 true] [] in
  let e := PressDone (sample_task 1 false) in
  NoDup (ids w) ∧ offered w e ∧
  doneNotificationVisible (flags (handle sample_nanoid sample_now e w)) = true.
Proof.
  assert (NoDup (ids (sample_world [sample_task 1 false; sample_task 0 true] [])))
    as Hnd by decide_by_compute.
  assert (offered (sample_world [sample_task 1 false; sample_task 0 true] [])
                  (PressDone (sample_task 1 false)))
    as Hoff by decide_by_compute.
  split; [exact Hnd|]. split; [exact Hoff|].
  apply (completion_is_notified sample_nanoid sample_now _ _
           (sample_task 1 false) (sample_task 1 true) Hnd Hoff).
  - exact Hoff.
  - reflexivity.
  - decide_by_compute.
  - reflexivity.
  - reflexivity.
Defined.

Lemma notification_stays_witness :
  let w := handle sample_nanoid sample_now (PressDone (sample_task 0 false))
             (sample_world [sample_task 0 false] []) in
  doneNotificationVisible (flags w) = true ∧
  doneNotificationVisible
    (flags (handle sample_nanoid sample_now PressClearCompleted w)) = true.
Proof.
  split; [reflexivity|].
  by apply (notification_stays sample_nanoid sample_now).
Defined.

Lemma handleToggleDone_unknown_id_witness :
  let w := sample_world [sample_task 0 false] [] in
  (sample_nanoid 5 ∉ ids w) ∧
  tasks (handleToggleDone sample_nanoid sample_now (sample_nanoid 5) false w)
  = tasks w ∧
  doneNotificationVisible
    (flags (handleToggleDone sample_nanoid sample_now (sample_nanoid 5) false w))
  = true.
Proof.
  assert (sample_nanoid 5 ∉ ids (sample_world [sample_task 0 false] []))
    as Hi by decide_by_compute.
  split; [exact Hi|].
  pose proof (handleToggleDone_unknown_id sample_nanoid sample_now _ _ Hi)
    as (H1 & H2 & _).
  by split.
Defined.

Lemma tasks_sorted_by_createdAt_witness :
  let l := [UI (ChangeText (js "Buy milk")); UI PressAdd;
            UI (ChangeText (js "Walk dog")); UI PressAdd] in
  let w := run sample_nanoid sample_clock l initialWorld in
  (∀ a b, a ≤ b → (sample_clock a ≤ sample_clock b)%Z) ∧
  createdAt <$> tasks w = [sample_clock 1; sample_clock 0] ∧
  ∀ i j t u, tasks w !! i = Some t → tasks w !! j = Some u → i ≤ j →
             (createdAt u ≤ createdAt t)%Z.
Proof.
  assert (∀ a b, a ≤ b → (sample_clock a ≤ sample_clock b)%Z) as Hclock.
  { intros a b Hab. unfold sample_clock. lia. }
  split; [exact Hclock|]. split; [reflexivity|].
  exact (tasks_sorted_by_createdAt sample_nanoid sample_clock
           [UI (ChangeText (js "Buy milk")); UI PressAdd;
            UI (ChangeText (js "Walk dog")); UI PressAdd] Hclock).
Defined.

Lemma add_then_remove_witness :
  let w := sample_world [sample_task 0 true] (js "Walk dog") in
  ¬ blank (titleText w) ∧
  (sample_nanoid (nanoidCalls (env w)) ∉ ids w) ∧
  tasks (call sample_nanoid sample_now (removeTodo (sample_nanoid 1))
           (addTask sample_nanoid sample_now w))
  = [sample_task 0 true].
Proof.
  assert (¬ blank (titleText (sample_world [sample_task 0 true] (js "Walk dog"))))
    as Hnb by decide_by_compute.
  assert (sample_nanoid
            (nanoidCalls (env (sample_world [sample_task 0 true] (js "Walk dog"))))
          ∉ ids (sample_world [sample_task 0 true] (js "Walk dog")))
    as Hfresh by decide_by_compute.
  split; [exact Hnb|]. split; [exact Hfresh|].
  exact (add_then_remove sample_nanoid sample_now _ Hnb Hfresh).
Defined.

Lemma toggle_commutes_witness :
  let w := sample_world [sample_task 1 false; sample_task 0 true] [] in
  sample_nanoid 0 ≠ sample_nanoid 1 ∧
  call sample_nanoid sample_now (toggleTodo (sample_nanoid 0))
    (call sample_nanoid sample_now (toggleTodo (sample_nanoid 1)) w)
  = call sample_nanoid sample_now (toggleTodo (sample_nanoid 1))
      (call sample_nanoid sample_now (toggleTodo (sample_nanoid 0)) w).
Proof.
  split; [discriminate|].
  apply (toggle_commutes sample_nanoid sample_now). discriminate.
Defined.

Lemma removeTodo_spec_witness :
  let w := sample_world [sample_task 1 false; sample_task 0 true] [] in
  let w' := call sample_nanoid sample_now (removeTodo (sample_nanoid 0)) w in
  (sample_task 1 false ∈ tasks w ∧ id (sample_task 1 false) ≠ sample_nanoid 0) ∧
  sample_task 1 false ∈ tasks w'.
Proof.
  assert (sample_task 1 false
            ∈ tasks (sample_world [sample_task 1 false; sample_task 0 true] [])
          ∧ id (sample_task 1 false) ≠ sample_nanoid 0)
    as Hin by decide_by_compute.
  split; [exact Hin|].
  by apply (removeTodo_spec sample_nanoid sample_now).
Defined.
